(** * cookbooks/pipeline_lightonocr.py: PDF to Markdown through a remote OCR service

    A shallow embedding of the script's functions and the properties of
    its dispatch loop, its assembly step and its output paths.

    Modelling conventions.
    - Python [str] is [string]; non-ASCII text is its UTF-8 byte sequence.
      The pattern of the only [str.replace] call is ASCII, so replacing
      on bytes and on code points agree.
    - The values that come back from [response.json()] are Python objects,
      [pyval]; raising is the [Raises] constructor of [result].
    - The PDF renderer, the HTTP client and the thread pool are external
      collaborators.  The document is the list of its rendered pages, the
      service is an oracle [net] giving the outcome of the one POST each
      page makes, and [as_completed] is the order in which the pool hands
      the futures back.
    - [print] calls are not modelled, and [Path.write_text] always
      succeeds: it replaces the whole file. *)

From Stdlib Require Import QArith Ascii.
From stdpp Require Import gmap strings list fin_maps pretty.


(** ** Configuration constants *)

Definition ENDPOINT : string := "http://localhost:9090/v1/chat/completions".
Definition MODEL : string := "LightOnOCR-2-1B".
Definition MAX_WORKERS : nat := 8.
Definition REQUEST_TIMEOUT : nat := 120.

(** ** Python strings *)

(** [s[n:]] *)
Fixpoint str_drop (n : nat) (s : string) : string :=
  match n, s with
  | 0, _ => s
  | S _, "" => ""
  | S k, String _ s' => str_drop k s'
  end.

(** The scan of [str.replace(old, new)] for a non-empty [old]: left to
    right, non-overlapping.  [skip] counts the characters of a match that
    are still to be passed over. *)
Fixpoint replace_scan (old new : string) (skip : nat) (s : string) : string :=
  match s with
  | "" => ""
  | String c s' =>
      match skip with
      | S k => replace_scan old new k s'
      | 0 =>
          if String.prefix old s
          then new +:+ replace_scan old new (String.length old - 1) s'
          else String c (replace_scan old new 0 s')
      end
  end.

(** With an empty [old], Python puts [new] before every character and at
    the end. *)
Fixpoint replace_empty (new : string) (s : string) : string :=
  match s with
  | "" => new
  | String c s' => new +:+ String c (replace_empty new s')
  end.

(** [s.replace(old, new)] *)
Definition str_replace (old new s : string) : string :=
  match old with
  | "" => replace_empty new s
  | _ => replace_scan old new 0 s
  end.

(** [old in s] *)
Fixpoint occurs (old s : string) : bool :=
  String.prefix old s ||
  match s with
  | "" => false
  | String _ s' => occurs old s'
  end.

(** ** Python objects and exceptions *)

Set Warnings "-register-all".

Inductive pyval :=
| PyNone
| PyBool (b : bool)
| PyInt (z : Z)
| PyFloat (repr : string)
| PyStr (s : string)
| PyList (items : list pyval)
| PyDict (items : list (string * pyval)).

(** The exception classes the handlers of the script tell apart.  All of
    them derive from [Exception]. *)
Inductive exn_class :=
| Timeout            (* requests.Timeout and its subclasses *)
| RequestException   (* every other requests.RequestException *)
| KeyError
| IndexError
| TypeError
| Exception.         (* any other subclass of Exception *)

(** An exception value: its class and [str(e)]. *)
Record exn := Exn { exn_class_of : exn_class; exn_str : string }.

Inductive result (A : Type) :=
| Returns (a : A)
| Raises (e : exn).
Arguments Returns {A} a.
Arguments Raises {A} e.

Definition bind {A B : Type} (r : result A) (k : A → result B) : result B :=
  match r with
  | Returns a => k a
  | Raises e => Raises e
  end.

Notation "x ←! r ; k" := (bind r (λ x, k))
  (at level 20, r at level 100, k at level 200, right associativity,
   format "x  ←!  r ;  '/' k").

Inductive pykey :=
| KStr (s : string)
| KIdx (i : nat).

Definition py_repr_key (k : pykey) : string :=
  match k with
  | KStr s => "'" +:+ s +:+ "'"
  | KIdx i => pretty i
  end.

Fixpoint dict_get (items : list (string * pyval)) (k : string) : option pyval :=
  match items with
  | [] => None
  | (k', v) :: rest => if String.eqb k' k then Some v else dict_get rest k
  end.

Definition py_type_name (v : pyval) : string :=
  match v with
  | PyNone => "NoneType"
  | PyBool _ => "bool"
  | PyInt _ => "int"
  | PyFloat _ => "float"
  | PyStr _ => "str"
  | PyList _ => "list"
  | PyDict _ => "dict"
  end.

(** [v[k]] for a string key or a non-negative index.  The texts of the
    [TypeError]s are CPython's; nothing below depends on them.  Indexing
    a [str] is by byte here; the script subscripts the result with a
    string key at once, which raises whatever the character. *)
Definition getitem (v : pyval) (k : pykey) : result pyval :=
  match v, k with
  | PyDict items, KStr s =>
      match dict_get items s with
      | Some x => Returns x
      | None => Raises (Exn KeyError (py_repr_key k))
      end
  | PyDict _, KIdx _ => Raises (Exn KeyError (py_repr_key k))
  | PyList items, KIdx i =>
      match items !! i with
      | Some x => Returns x
      | None => Raises (Exn IndexError "list index out of range")
      end
  | PyList _, KStr _ =>
      Raises (Exn TypeError "list indices must be integers or slices, not str")
  | PyStr s, KIdx i =>
      if decide (i < String.length s)
      then Returns (PyStr (String.substring i 1 s))
      else Raises (Exn IndexError "string index out of range")
  | PyStr _, KStr _ => Raises (Exn TypeError "string indices must be integers")
  | (PyNone | PyBool _ | PyInt _ | PyFloat _), _ =>
      Raises (Exn TypeError
        ("'" +:+ py_type_name v +:+ "' object is not subscriptable"))
  end.

(** ["".join(items)] from item [i] on: every item has to be a [str]. *)
Fixpoint str_join_from (i : nat) (items : list pyval) : result string :=
  match items with
  | [] => Returns ""
  | PyStr s :: rest => t ←! str_join_from (S i) rest; Returns (s +:+ t)
  | v :: _ =>
      Raises (Exn TypeError
        ("sequence item " +:+ pretty i +:+ ": expected str instance, "
         +:+ py_type_name v +:+ " found"))
  end.

Definition str_join (items : list pyval) : result string :=
  str_join_from 0 items.

(** ** Transport session *)

Record Retry := {
  total : nat;
  backoff_factor : Q;
  status_forcelist : list nat
}.

Record HTTPAdapter := {
  pool_connections : nat;
  pool_maxsize : nat;
  max_retries : Retry
}.

(** A session is its table of mounted adapters, keyed by URL prefix. *)
Definition create_session : gmap string HTTPAdapter :=
  let retry :=
    {| total := 3;
       backoff_factor := (1 # 10)%Q;
       status_forcelist := [500; 502; 503; 504] |} in
  let adapter :=
    {| pool_connections := MAX_WORKERS;
       pool_maxsize := MAX_WORKERS * 2;
       max_retries := retry |} in
  <["https://" := adapter]> (<["http://" := adapter]> ∅).

(** [_thread_local.session] is [None] until the thread first asks. *)
Definition get_thread_session (thread_local : option (gmap string HTTPAdapter))
  : gmap string HTTPAdapter * option (gmap string HTTPAdapter) :=
  match thread_local with
  | Some session => (session, thread_local)
  | None => let session := create_session in (session, Some session)
  end.

(** ** The OCR call *)

Record request := {
  req_url : string;
  req_json : pyval;
  req_timeout : nat
}.

Record response := {
  status_code : nat;
  reason : string;
  url : string;
  json : result pyval       (* what [response.json()] does *)
}.

(** [response.raise_for_status()] of requests: an [HTTPError], which is
    a [RequestException], for a 4xx or 5xx status and nothing otherwise. *)
Definition raise_for_status (r : response) : result unit :=
  if decide (400 ≤ status_code r < 500) then
    Raises (Exn RequestException
      (pretty (status_code r) +:+ " Client Error: " +:+ reason r
       +:+ " for url: " +:+ url r))
  else if decide (500 ≤ status_code r < 600) then
    Raises (Exn RequestException
      (pretty (status_code r) +:+ " Server Error: " +:+ reason r
       +:+ " for url: " +:+ url r))
  else Returns ().

Definition ocr_payload (image_base64 : string) : pyval :=
  PyDict [
    ("model", PyStr MODEL);
    ("messages", PyList [
      PyDict [
        ("role", PyStr "user");
        ("content", PyList [
          PyDict [
            ("type", PyStr "image_url");
            ("image_url",
              PyDict [("url", PyStr ("data:image/png;base64," +:+ image_base64))])
          ]
        ])
      ]
    ]);
    ("max_tokens", PyInt 4096);
    ("temperature", PyFloat "0.2");
    ("top_p", PyFloat "0.9")
  ].

(** The arguments of the one [session.post] call. *)
Definition ocr_request (image_base64 : string) : request :=
  {| req_url := ENDPOINT; req_json := ocr_payload image_base64;
     req_timeout := REQUEST_TIMEOUT |}.

(** [net page_num req] is what [session.post] does for the call page
    [page_num] makes: it returns a response or raises, after whatever the
    transport did on its own.  The first component of the result lists
    the calls made. *)
Definition ocr_image (net : nat → request → result response)
    (page_num : nat) (image_base64 : string) : list request * result pyval :=
  let req := ocr_request image_base64 in
  let body :=
    response ←! net page_num req;
    _ ←! raise_for_status response;
    data ←! json response;
    choices ←! getitem data (KStr "choices");
    choice ←! getitem choices (KIdx 0);
    message ←! getitem choice (KStr "message");
    getitem message (KStr "content") in
  ([req],
   match body with
   | Returns text => Returns text
   | Raises e =>
       match exn_class_of e with
       | Timeout =>
           Raises (Exn Exception
             ("请求超时（" +:+ pretty REQUEST_TIMEOUT +:+ "秒）"))
       | RequestException =>
           Raises (Exn Exception ("请求失败: " +:+ exn_str e))
       | KeyError | IndexError =>
           Raises (Exn Exception ("响应解析失败: " +:+ exn_str e))
       | TypeError | Exception => Raises e
       end
   end).

(** ** The pipeline *)

(** A submitted task: the requests its worker sent and what
    [future.result()] gives. *)
Record future := Future {
  fut_calls : list request;
  fut_outcome : result pyval
}.

Definition submit (net : nat → request → result response)
    (page_num : nat) (image_base64 : string) : future :=
  let '(calls, outcome) := ocr_image net page_num image_base64 in
  Future calls outcome.

(** [pages_data]: the document is the list of its pages, each already
    rendered to a base64 PNG. *)
Fixpoint render_pages (page_num : nat) (pdf : list string) : list (nat * string) :=
  match pdf with
  | [] => []
  | image_base64 :: rest => (page_num, image_base64) :: render_pages (S page_num) rest
  end.

(** The dict comprehension: one future per element of [pages_data], in
    insertion order.  Futures are keys by identity, so the dict is the list
    of its items. *)
Definition future_to_page (net : nat → request → result response)
    (pages_data : list (nat * string)) : list (future * nat) :=
  map (λ '(page_num, img_b64), (submit net page_num img_b64, page_num)) pages_data.

Record collected := {
  results : gmap nat pyval;
  failed_pages : list nat;
  completed : nat
}.

Definition collect_init : collected :=
  {| results := ∅; failed_pages := []; completed := 0 |}.

(** One iteration of the loop over [as_completed]; [entry] is the future
    handed back together with [future_to_page[future]]. *)
Definition collect (st : collected) (entry : future * nat) : collected :=
  let '(future, page_num) := entry in
  match fut_outcome future with
  | Returns text =>
      {| results := <[page_num := text]> (results st);
         failed_pages := failed_pages st;
         completed := completed st + 1 |}
  | Raises e =>
      let error_msg := "[处理失败: " +:+ exn_str e +:+ "]" in
      {| results := <[page_num := PyStr error_msg]> (results st);
         failed_pages := failed_pages st ++ [page_num + 1];
         completed := completed st |}
  end.

Definition dispatch (as_completed : list (future * nat) → list (future * nat))
    (net : nat → request → result response) (pages_data : list (nat * string))
  : collected :=
  foldl collect collect_init (as_completed (future_to_page net pages_data)).

Definition newline : string := String "010"%char "".

Definition separator (page_num : nat) : string :=
  newline +:+ newline +:+ "## Page " +:+ pretty (page_num + 1) +:+ newline +:+ newline.

(** The loop that fills [all_content]; [results[page_num]] raises
    [KeyError] on a missing key. *)
Fixpoint all_content_of (results : gmap nat pyval) (pages : list nat)
  : result (list pyval) :=
  match pages with
  | [] => Returns []
  | page_num :: rest =>
      match results !! page_num with
      | None => Raises (Exn KeyError (pretty page_num))
      | Some item =>
          tail ←! all_content_of results rest;
          Returns (PyStr (separator page_num) :: item :: tail)
      end
  end.

(** The loop over [enumerate(all_content)], from index [i]. *)
Fixpoint clean_content_of (i : nat) (all_content : list pyval) : list pyval :=
  match all_content with
  | [] => []
  | item :: rest =>
      if decide (i mod 2 = 1)
      then item :: clean_content_of (S i) rest
      else clean_content_of (S i) rest
  end.

Definition output_path_with_separators (output_md_path : string) : string :=
  str_replace ".md" "_with_separators.md" output_md_path.

Record run := {
  run_collected : collected;
  run_writes : list (string * string);   (* the [write_text] calls, in order *)
  run_fs : gmap string string;           (* the files afterwards *)
  run_raised : option exn                (* the exception that ended the run *)
}.

Definition pdf_to_md (as_completed : list (future * nat) → list (future * nat))
    (net : nat → request → result response) (pdf : list string)
    (output_md_path : string) (fs : gmap string string) : run :=
  let total_pages := length pdf in
  let pages_data := render_pages 0 pdf in
  let st := dispatch as_completed net pages_data in
  match all_content_of (results st) (seq 0 total_pages) with
  | Raises e => {| run_collected := st; run_writes := []; run_fs := fs; run_raised := Some e |}
  | Returns all_content =>
      match str_join all_content with
      | Raises e =>
          {| run_collected := st; run_writes := []; run_fs := fs; run_raised := Some e |}
      | Returns combined_text =>
          let with_separators := output_path_with_separators output_md_path in
          let fs1 := <[with_separators := combined_text]> fs in
          match str_join (clean_content_of 0 all_content) with
          | Raises e =>
              {| run_collected := st;
                 run_writes := [(with_separators, combined_text)];
                 run_fs := fs1; run_raised := Some e |}
          | Returns clean_text =>
              {| run_collected := st;
                 run_writes := [(with_separators, combined_text);
                                (output_md_path, clean_text)];
                 run_fs := <[output_md_path := clean_text]> fs1;
                 run_raised := None |}
          end
      end
  end.

(** ** The main flow, one step at a time

    The same code as a transition system, for the properties that speak
    of the moments in between: the futures not yet handed back by
    [as_completed] are [pending], and any of them may be the next. *)

Inductive flow :=
| Collecting (pending : list (future * nat)) (st : collected) (fs : gmap string string)
| Assembled (st : collected) (all_content : list pyval) (combined_text : string)
    (fs : gmap string string)
| SeparatorsWritten (st : collected) (clean_text : string) (fs : gmap string string)
| Finished (st : collected) (fs : gmap string string)
| Aborted (st : collected) (e : exn) (fs : gmap string string).

Inductive step (total_pages : nat) (output_md_path : string) : flow → flow → Prop :=
| step_collect before entry after st fs :
    step total_pages output_md_path
      (Collecting (before ++ entry :: after) st fs)
      (Collecting (before ++ after) (collect st entry) fs)
| step_assemble st fs all_content combined_text :
    all_content_of (results st) (seq 0 total_pages) = Returns all_content →
    str_join all_content = Returns combined_text →
    step total_pages output_md_path
      (Collecting [] st fs) (Assembled st all_content combined_text fs)
| step_assemble_key st fs e :
    all_content_of (results st) (seq 0 total_pages) = Raises e →
    step total_pages output_md_path (Collecting [] st fs) (Aborted st e fs)
| step_assemble_join st fs all_content e :
    all_content_of (results st) (seq 0 total_pages) = Returns all_content →
    str_join all_content = Raises e →
    step total_pages output_md_path (Collecting [] st fs) (Aborted st e fs)
| step_write_separators st fs all_content combined_text clean_text :
    str_join (clean_content_of 0 all_content) = Returns clean_text →
    step total_pages output_md_path
      (Assembled st all_content combined_text fs)
      (SeparatorsWritten st clean_text
         (<[output_path_with_separators output_md_path := combined_text]> fs))
| step_write_separators_join st fs all_content combined_text e :
    str_join (clean_content_of 0 all_content) = Raises e →
    step total_pages output_md_path
      (Assembled st all_content combined_text fs)
      (Aborted st e (<[output_path_with_separators output_md_path := combined_text]> fs))
| step_write_clean st fs clean_text :
    step total_pages output_md_path
      (SeparatorsWritten st clean_text fs)
      (Finished st (<[output_md_path := clean_text]> fs)).

Definition flow_collected (s : flow) : collected :=
  match s with
  | Collecting _ st _ | Assembled st _ _ _ | SeparatorsWritten st _ _
  | Finished st _ | Aborted st _ _ => st
  end.

Definition flow_fs (s : flow) : gmap string string :=
  match s with
  | Collecting _ _ fs | Assembled _ _ _ fs | SeparatorsWritten _ _ fs
  | Finished _ fs | Aborted _ _ fs => fs
  end.

Definition flow_pending (s : flow) : list (future * nat) :=
  match s with
  | Collecting pending _ _ => pending
  | _ => []
  end.

Definition past_barrier (s : flow) : bool :=
  match s with
  | Collecting _ _ _ => false
  | _ => true
  end.

(** Where a run of [pdf_to_md] ends, as a state of the flow. *)
Definition flow_of_run (r : run) : flow :=
  match run_raised r with
  | None => Finished (run_collected r) (run_fs r)
  | Some e => Aborted (run_collected r) e (run_fs r)
  end.

Definition flow_start (net : nat → request → result response) (pdf : list string)
    (fs : gmap string string) : flow :=
  Collecting (future_to_page net (render_pages 0 pdf)) collect_init fs.

(** What holds at every moment of the flow: the futures handed back so
    far and the pending ones are all the futures, and no file has been
    touched while the loop is still collecting. *)
Definition flow_inv (net : nat → request → result response) (pdf : list string)
    (fs0 : gmap string string) (s : flow) : Prop :=
  (∃ handed_back,
      flow_pending s ++ handed_back ≡ₚ future_to_page net (render_pages 0 pdf) ∧
      flow_collected s = foldl collect collect_init handed_back) ∧
  (past_barrier s = false → flow_fs s = fs0) ∧
  (past_barrier s = true → flow_pending s = []).

(** The requests of a whole run: those of every submitted task, in
    submission order. *)
Definition run_requests (net : nat → request → result response) (pdf : list string)
  : list request :=
  (future_to_page net (render_pages 0 pdf)).*1 ≫= fut_calls.

(** ** What the files are expected to hold *)

(** What the loop stores for a page whose future gave [outcome]. *)
Definition page_entry (outcome : result pyval) : pyval :=
  match outcome with
  | Returns text => text
  | Raises e => PyStr ("[处理失败: " +:+ exn_str e +:+ "]")
  end.

(** The entry of every page, in page order. *)
Definition page_entries (net : nat → request → result response) (pdf : list string)
  : list pyval :=
  map (λ '(page_num, img_b64), page_entry (ocr_image net page_num img_b64).2)
      (render_pages 0 pdf).

(** [all_content] for pages [page_num], [page_num + 1], ... with these
    entries: a separator before each. *)
Fixpoint separated (page_num : nat) (entries : list pyval) : list pyval :=
  match entries with
  | [] => []
  | entry :: rest =>
      PyStr (separator page_num) :: entry :: separated (S page_num) rest
  end.

(** Pages [page_num], [page_num + 1], ... each under its heading. *)
Fixpoint with_separators_text (page_num : nat) (texts : list string) : string :=
  match texts with
  | [] => ""
  | text :: rest =>
      separator page_num +:+ text +:+ with_separators_text (S page_num) rest
  end.

Fixpoint clean_text_of (texts : list string) : string :=
  match texts with
  | [] => ""
  | text :: rest => text +:+ clean_text_of rest
  end.

(** [headings_removed hs t t']: [t'] is [t] with the strings [hs] taken
    out, in this order, and everything else kept. *)
Inductive headings_removed : list string → string → string → Prop :=
| removed_done t : headings_removed [] t t
| removed_keep hs c t t' :
    headings_removed hs t t' → headings_removed hs (String c t) (String c t')
| removed_heading h hs t t' :
    headings_removed hs t t' → headings_removed (h :: hs) (h +:+ t) t'.

(** A parsed body in which [choices], its first element, [message] or
    [content] is absent. *)
Definition text_field_missing (body : pyval) : bool :=
  match body with
  | PyDict items =>
      match dict_get items "choices" with
      | None => true
      | Some (PyList []) => true
      | Some (PyList (PyDict choice :: _)) =>
          match dict_get choice "message" with
          | None => true
          | Some (PyDict message) =>
              match dict_get message "content" with
              | None => true
              | Some _ => false
              end
          | Some _ => false
          end
      | Some _ => false
      end
  | _ => false
  end.

(** Specified: the path of the file with separators has
    [_with_separators] inserted before the final extension, the part of
    the last component from its last dot on. *)
Fixpoint split_extension (path : string) : string * string :=
  match path with
  | "" => ("", "")
  | String c rest =>
      let '(stem, ext) := split_extension rest in
      match ext with
      | "" =>
          if Ascii.eqb c "." && negb (occurs "/" rest)
          then ("", path)
          else (String c stem, "")
      | _ => (String c stem, ext)
      end
  end.

Definition insert_before_extension (suffix path : string) : string :=
  let '(stem, ext) := split_extension path in
  stem +:+ suffix +:+ ext.

(** ** Sample inputs *)

Definition sample_body (text : string) : pyval :=
  PyDict [("choices",
           PyList [PyDict [("message", PyDict [("content", PyStr text)])]])].

Definition sample_response (status : nat) (phrase : string) (body : pyval)
  : response :=
  {| status_code := status; reason := phrase; url := ENDPOINT;
     json := Returns body |}.

(** A service that answers page 0 and page 4, times out on page 1, fails
    with a 500 on page 2 and sends an empty object for page 3. *)
Definition sample_net (page_num : nat) (req : request) : result response :=
  match page_num with
  | 1 => Raises (Exn Timeout "Read timed out. (read timeout=120)")
  | 2 => Returns (sample_response 500 "Internal Server Error" PyNone)
  | 3 => Returns (sample_response 200 "OK" (PyDict []))
  | _ => Returns (sample_response 200 "OK" (sample_body ("text of page " +:+ pretty page_num)))
  end.

(** A service that is down: every call ends in a connection error. *)
Definition failing_net (page_num : nat) (req : request) : result response :=
  Raises (Exn RequestException "Connection refused").

(** A service that answers every page, the same without the timeout. *)
Definition answering_net (page_num : nat) (req : request) : result response :=
  match page_num with
  | 1 => Returns (sample_response 200 "OK" (sample_body "text of page 1"))
  | _ => sample_net page_num req
  end.

(** A complete answer sent with a 300 status. *)
Definition multiple_choices_net (page_num : nat) (req : request) : result response :=
  Returns (sample_response 300 "Multiple Choices" (sample_body "text of the page")).

Definition sample_pdf : list string := ["cGFnZTA="; "cGFnZTE="; "cGFnZTI="; "cGFnZTM="; "cGFnZTQ="].

Definition sample_texts : list string :=
  ["text of page 0";
   "[处理失败: 请求超时（120秒）]";
   "[处理失败: 请求失败: 500 Server Error: Internal Server Error for url: http://localhost:9090/v1/chat/completions]";
   "[处理失败: 响应解析失败: 'choices']";
   "text of page 4"].

(** ** Further definitions *)


Definition raised {A : Type} (r : result A) : bool :=
  match r with
  | Returns _ => false
  | Raises _ => true
  end.

(** What each stage of the flow has computed and written so far. *)
Definition flow_stage_inv (total_pages : nat) (output_md_path : string)
    (fs0 : gmap string string) (s : flow) : Prop :=
  match s with
  | Collecting _ _ fs => fs = fs0
  | Assembled st all_content combined_text fs =>
      all_content_of (results st) (seq 0 total_pages) = Returns all_content ∧
      str_join all_content = Returns combined_text ∧
      fs = fs0
  | SeparatorsWritten st clean_text fs =>
      ∃ all_content combined_text,
        all_content_of (results st) (seq 0 total_pages) = Returns all_content ∧
        str_join all_content = Returns combined_text ∧
        str_join (clean_content_of 0 all_content) = Returns clean_text ∧
        fs = <[output_path_with_separators output_md_path := combined_text]> fs0
  | Finished st fs =>
      ∃ all_content combined_text clean_text,
        all_content_of (results st) (seq 0 total_pages) = Returns all_content ∧
        str_join all_content = Returns combined_text ∧
        str_join (clean_content_of 0 all_content) = Returns clean_text ∧
        fs = <[output_md_path := clean_text]>
               (<[output_path_with_separators output_md_path := combined_text]> fs0)
  | Aborted st e fs =>
      (all_content_of (results st) (seq 0 total_pages) = Raises e ∧ fs = fs0) ∨
      (∃ all_content,
         all_content_of (results st) (seq 0 total_pages) = Returns all_content ∧
         str_join all_content = Raises e ∧ fs = fs0) ∨
      (∃ all_content combined_text,
         all_content_of (results st) (seq 0 total_pages) = Returns all_content ∧
         str_join all_content = Returns combined_text ∧
         str_join (clean_content_of 0 all_content) = Raises e ∧
         fs = <[output_path_with_separators output_md_path := combined_text]> fs0)
  end.

(** A service whose answer for page 1 carries [null] where the text
    should be. *)
Definition null_content_net (page_num : nat) (req : request) : result response :=
  match page_num with
  | 1 => Returns (sample_response 200 "OK"
           (PyDict [("choices",
              PyList [PyDict [("message", PyDict [("content", PyNone)])]])]))
  | _ => answering_net page_num req
  end.

(** * Properties *)

(** ** Strings *)

#[local] Arguments String.append : simpl nomatch.

Section strings.
Implicit Types s t old new : string.

Lemma str_app_nil_r s : s +:+ "" = s.
Proof. induction s as [|c s IH]; simpl; [done | by rewrite IH]. Qed.

Lemma str_app_assoc s t u : (s +:+ t) +:+ u = s +:+ t +:+ u.
Proof. induction s as [|c s IH]; simpl; [done | by rewrite IH]. Qed.

Lemma str_drop_nil n : str_drop n "" = "".
Proof. by destruct n. Qed.

Lemma str_drop_0 s : str_drop 0 s = s.
Proof. by destruct s. Qed.

Lemma str_drop_app s t : str_drop (String.length s) (s +:+ t) = t.
Proof. induction s as [|c s IH]; simpl; done. Qed.

Lemma prefix_app old t : String.prefix old (old +:+ t) = true.
Proof.
  induction old as [|c old IH]; simpl; [by destruct t |].
  destruct (ascii_dec c c); [exact IH | done].
Qed.

Lemma prefix_inv old s :
  String.prefix old s = true → s = old +:+ str_drop (String.length old) s.
Proof.
  revert s. induction old as [|c old IH]; intros [|d s]; simpl; try done.
  destruct (ascii_dec c d) as [->|]; [|done].
  intros H. f_equal. by apply IH.
Qed.

Lemma prefix_app_l old s t :
  String.prefix old s = true → String.prefix old (s +:+ t) = true.
Proof.
  intros H. rewrite (prefix_inv _ _ H), str_app_assoc. apply prefix_app.
Qed.


Lemma occurs_cons_false old c s :
  occurs old (String c s) = false →
  String.prefix old (String c s) = false ∧ occurs old s = false.
Proof. cbn [occurs]. by rewrite orb_false_iff. Qed.

Lemma replace_scan_skip old new k s :
  replace_scan old new k s = replace_scan old new 0 (str_drop k s).
Proof.
  revert k. induction s as [|c s IH]; intros [|k]; simpl; auto.
Qed.

(** The scan as Python describes it: at a match, emit [new] and go on
    after the match; otherwise copy one character. *)
Lemma replace_scan_unfold old new c s :
  old ≠ "" →
  replace_scan old new 0 (String c s) =
    if String.prefix old (String c s)
    then new +:+ replace_scan old new 0 (str_drop (String.length old) (String c s))
    else String c (replace_scan old new 0 s).
Proof.
  intros Hold. cbn [replace_scan].
  destruct (String.prefix old (String c s)); [|done].
  rewrite replace_scan_skip. destruct old as [|d old]; [done |].
  simpl. by rewrite Nat.sub_0_r.
Qed.

Lemma replace_scan_absent old new s :
  occurs old s = false → replace_scan old new 0 s = s.
Proof.
  induction s as [|c s IH]; [done |].
  intros [Hp Ho]%occurs_cons_false. cbn [replace_scan].
  rewrite Hp. by rewrite IH.
Qed.

Lemma str_replace_absent old new s :
  old ≠ "" → occurs old s = false → str_replace old new s = s.
Proof.
  intros Hold H. destruct old; [done |]. by apply replace_scan_absent.
Qed.
End strings.

(** A pattern that cannot start inside an earlier text and run into a
    following copy of itself: then a match never straddles the boundary
    of an occurrence, and replacing distributes over it. *)
Section replace_unbordered.
Variables old new : string.
Hypothesis old_nonempty : old ≠ "".
Hypothesis old_unbordered : ∀ a t,
  a ≠ "" → String.prefix old a = false →
  String.prefix old (a +:+ old +:+ t) = false.

Lemma str_length_app (s t : string) :
  String.length (s +:+ t) = String.length s + String.length t.
Proof. induction s as [|c s IH]; simpl; [done | by rewrite IH]. Qed.

Lemma replace_scan_at_match t :
  replace_scan old new 0 (old +:+ t) = new +:+ replace_scan old new 0 t.
Proof.
  destruct old as [|c o] eqn:E; [done |].
  change (String c o +:+ t) with (String c (o +:+ t)).
  rewrite <- E at 1. rewrite replace_scan_unfold by (by rewrite E).
  change (String c (o +:+ t)) with (String c o +:+ t). rewrite <- E.
  by rewrite prefix_app, str_drop_app.
Qed.

Lemma replace_scan_occurrence a t :
  replace_scan old new 0 (a +:+ old +:+ t) =
    replace_scan old new 0 a +:+ new +:+ replace_scan old new 0 t.
Proof.
  remember (String.length a) as n eqn:Hn. revert a Hn.
  induction n as [n IH] using lt_wf_ind. intros [|c a] Hn.
  { apply replace_scan_at_match. }
  change (String c a +:+ old +:+ t) with (String c (a +:+ old +:+ t)).
  rewrite !replace_scan_unfold by done.
  change (String c (a +:+ old +:+ t)) with (String c a +:+ old +:+ t).
  destruct (String.prefix old (String c a)) eqn:Hp.
  - rewrite (prefix_app_l _ _ _ Hp).
    pose proof (prefix_inv _ _ Hp) as Ha.
    set (rest := str_drop (String.length old) (String c a)) in *.
    rewrite Ha at 1. rewrite str_app_assoc, str_drop_app.
    assert (String.length rest < n) as Hlt.
    { subst n. rewrite Ha, str_length_app.
      destruct old; [done | simpl; lia]. }
    rewrite (IH _ Hlt rest eq_refl). by rewrite str_app_assoc.
  - rewrite old_unbordered by done.
    assert (String.length a < n) as Hlt by (subst n; simpl; lia).
    by rewrite (IH _ Hlt a eq_refl).
Qed.
End replace_unbordered.

Lemma prefix_cons a s b t :
  String.prefix (String a s) (String b t) =
    if ascii_dec a b then String.prefix s t else false.
Proof. done. Qed.

Lemma md_unbordered a t :
  a ≠ "" → String.prefix ".md" a = false →
  String.prefix ".md" (a +:+ ".md" +:+ t) = false.
Proof.
  intros Ha. destruct a as [|c1 [|c2 [|c3 a]]]; [done |..];
    cbn [String.append]; rewrite ?prefix_cons;
    repeat (destruct (ascii_dec _ _) as [?|?]; simplify_eq; try done).
  by destruct a.
Qed.

(** Replacing in a path distributes over every occurrence of [.md]. *)
Lemma output_path_occurrence a t :
  output_path_with_separators (a +:+ ".md" +:+ t) =
    output_path_with_separators a +:+ "_with_separators.md"
      +:+ output_path_with_separators t.
Proof. apply replace_scan_occurrence; [done | apply md_unbordered]. Qed.

Lemma output_path_absent path :
  occurs ".md" path = false → output_path_with_separators path = path.
Proof. by apply str_replace_absent. Qed.

Lemma split_extension_md stem :
  split_extension (stem +:+ ".md") = (stem, ".md").
Proof.
  induction stem as [|c stem IH]; [done |].
  change (String c stem +:+ ".md") with (String c (stem +:+ ".md")).
  cbn [split_extension]. by rewrite IH.
Qed.

(** ** The transport session *)

(** Both URL prefixes get the one adapter, with the retry settings of
    the script and a pool sized after the worker count. *)
Lemma create_session_adapter prefix adapter :
  create_session !! prefix = Some adapter →
  (prefix = "http://" ∨ prefix = "https://") ∧
  total (max_retries adapter) = 3 ∧
  status_forcelist (max_retries adapter) = [500; 502; 503; 504] ∧
  backoff_factor (max_retries adapter) = (1 # 10)%Q ∧
  pool_connections adapter = MAX_WORKERS ∧
  pool_maxsize adapter = 16.
Proof.
  unfold create_session. intros H.
  apply lookup_insert_Some in H as [[<- <-]|[_ H]]; [by auto 10 |].
  apply lookup_insert_Some in H as [[<- <-]|[_ H]]; [by auto 10 |].
  by rewrite lookup_empty in H.
Qed.

Lemma get_thread_session_once thread_local :
  (get_thread_session thread_local).2 = Some (get_thread_session thread_local).1 ∧
  get_thread_session (get_thread_session thread_local).2 =
    get_thread_session thread_local.
Proof. by destruct thread_local. Qed.

(** ** The dispatch loop *)

#[local] Arguments ocr_image : simpl never.

Lemma render_pages_lookup k pdf j :
  render_pages k pdf !! j = (λ image, (k + j, image)) <$> pdf !! j.
Proof.
  revert k j. induction pdf as [|image pdf IH]; intros k [|j]; simpl; try done.
  - by rewrite Nat.add_0_r.
  - rewrite IH. by replace (S k + j) with (k + S j) by lia.
Qed.

Lemma render_pages_fst k pdf : (render_pages k pdf).*1 = seq k (length pdf).
Proof.
  revert k. induction pdf as [|image pdf IH]; intros k; simpl; [done |].
  by rewrite IH.
Qed.

Lemma future_to_page_snd net pages_data :
  (future_to_page net pages_data).*2 = pages_data.*1.
Proof.
  induction pages_data as [|[page_num img] l IH]; [done |].
  simpl. f_equal. exact IH.
Qed.

Lemma submit_outcome net page_num img :
  fut_outcome (submit net page_num img) = (ocr_image net page_num img).2.
Proof. done. Qed.

Lemma submit_calls net page_num img :
  fut_calls (submit net page_num img) = (ocr_image net page_num img).1.
Proof. done. Qed.

Lemma collect_results st future page_num :
  results (collect st (future, page_num)) =
    <[page_num := page_entry (fut_outcome future)]> (results st).
Proof. unfold collect. by destruct (fut_outcome future). Qed.

Lemma collect_all_other st l page_num :
  page_num ∉ l.*2 →
  results (foldl collect st l) !! page_num = results st !! page_num.
Proof.
  revert st. induction l as [|[f p] l IH]; intros st Hnot; [done |].
  rewrite fmap_cons in Hnot. apply not_elem_of_cons in Hnot as [Hne Hnot].
  cbn [foldl]. rewrite IH by done. rewrite collect_results. by rewrite lookup_insert_ne.
Qed.

Lemma collect_all_page st l future page_num :
  NoDup l.*2 → (future, page_num) ∈ l →
  results (foldl collect st l) !! page_num = Some (page_entry (fut_outcome future)).
Proof.
  revert st. induction l as [|[f p] l IH]; intros st Hnd Hin.
  { by apply elem_of_nil in Hin. }
  rewrite fmap_cons in Hnd. apply NoDup_cons in Hnd as [Hp Hnd].
  cbn [foldl]. apply elem_of_cons in Hin as [[= <- <-]|Hin].
  - rewrite collect_all_other by done.
    by rewrite collect_results, lookup_insert_eq.
  - by apply IH.
Qed.

Section dispatch.
Variable net : nat → request → result response.
Variable pdf : list string.

Lemma page_entries_length : length (page_entries net pdf) = length pdf.
Proof.
  unfold page_entries. rewrite length_map.
  rewrite <- (length_fmap fst), render_pages_fst. apply length_seq.
Qed.

Lemma page_entries_lookup page_num :
  page_entries net pdf !! page_num =
    (λ image, page_entry (ocr_image net page_num image).2) <$> pdf !! page_num.
Proof.
  unfold page_entries. rewrite list_lookup_fmap, render_pages_lookup.
  by destruct (pdf !! page_num).
Qed.

(** In whatever order the futures were handed back, the entry stored
    under a page number is the entry of that page. *)
Lemma collected_lookup order page_num :
  order ≡ₚ future_to_page net (render_pages 0 pdf) →
  results (foldl collect collect_init order) !! page_num =
    page_entries net pdf !! page_num.
Proof.
  intros Horder.
  assert (order.*2 ≡ₚ seq 0 (length pdf)) as Hkeys.
  { by rewrite Horder, future_to_page_snd, render_pages_fst. }
  rewrite page_entries_lookup.
  destruct (pdf !! page_num) as [image|] eqn:Himage;
    cbn [fmap option_fmap option_map].
  - rewrite <- submit_outcome. apply collect_all_page.
    + rewrite Hkeys. apply NoDup_seq.
    + rewrite Horder. unfold future_to_page.
      apply list_elem_of_fmap. exists (page_num, image). split; [done |].
      apply list_elem_of_lookup. exists page_num.
      by rewrite render_pages_lookup, Himage.
  - rewrite collect_all_other; [done |].
    rewrite Hkeys, elem_of_seq. apply lookup_ge_None in Himage. lia.
Qed.

Lemma collected_dom order :
  order ≡ₚ future_to_page net (render_pages 0 pdf) →
  dom (results (foldl collect collect_init order)) = set_seq 0 (length pdf).
Proof.
  intros Horder. apply set_eq. intros page_num.
  rewrite elem_of_dom, collected_lookup by done.
  rewrite elem_of_set_seq, lookup_lt_is_Some, page_entries_length. lia.
Qed.

Variable as_completed : list (future * nat) → list (future * nat).
Hypothesis as_completed_all : ∀ futures, as_completed futures ≡ₚ futures.

Lemma dispatch_lookup page_num :
  results (dispatch as_completed net (render_pages 0 pdf)) !! page_num =
    page_entries net pdf !! page_num.
Proof. by apply collected_lookup. Qed.

Lemma dispatch_dom :
  dom (results (dispatch as_completed net (render_pages 0 pdf))) =
    set_seq 0 (length pdf).
Proof. by apply collected_dom. Qed.
End dispatch.

(** ** Assembly *)

Lemma all_content_of_entries results k entries :
  (∀ j, j < length entries → results !! (k + j) = entries !! j) →
  all_content_of results (seq k (length entries)) = Returns (separated k entries).
Proof.
  revert k. induction entries as [|entry entries IH]; intros k Hres; [done |].
  cbn [length seq all_content_of separated].
  pose proof (Hres 0 ltac:(simpl; lia)) as H0.
  rewrite Nat.add_0_r in H0. rewrite H0. cbn [lookup list_lookup].
  rewrite IH; [done |].
  intros j Hj. replace (S k + j) with (k + S j) by lia.
  apply (Hres (S j)). simpl. lia.
Qed.

Lemma clean_content_separated m k entries :
  clean_content_of (2 * m) (separated k entries) = entries.
Proof.
  revert m k. induction entries as [|entry entries IH]; intros m k; [done |].
  cbn [separated clean_content_of].
  rewrite decide_False; last first.
  { rewrite Nat.mul_comm, Nat.Div0.mod_mul. lia. }
  rewrite decide_True; last first.
  { replace (S (2 * m)) with (1 + m * 2) by lia.
    by rewrite Nat.Div0.mod_add. }
  f_equal. replace (S (S (2 * m))) with (2 * S m) by lia. apply IH.
Qed.

Lemma str_join_from_separated i k texts :
  str_join_from i (separated k (PyStr <$> texts)) =
    Returns (with_separators_text k texts).
Proof.
  revert i k. induction texts as [|text texts IH]; intros i k; [done |].
  rewrite fmap_cons. cbn [separated str_join_from with_separators_text].
  rewrite IH. done.
Qed.

Lemma str_join_separated k texts :
  str_join (separated k (PyStr <$> texts)) = Returns (with_separators_text k texts).
Proof. apply str_join_from_separated. Qed.

Lemma str_join_from_texts i texts :
  str_join_from i (PyStr <$> texts) = Returns (clean_text_of texts).
Proof.
  revert i. induction texts as [|text texts IH]; intros i; [done |].
  rewrite fmap_cons. cbn [str_join_from clean_text_of]. by rewrite IH.
Qed.

Lemma str_join_texts texts :
  str_join (PyStr <$> texts) = Returns (clean_text_of texts).
Proof. apply str_join_from_texts. Qed.

Lemma headings_removed_keep hs u t t' :
  headings_removed hs t t' → headings_removed hs (u +:+ t) (u +:+ t').
Proof.
  intros H. induction u as [|c u IH]; [done |]. by apply removed_keep.
Qed.

Lemma headings_removed_pages k texts :
  headings_removed (separator <$> seq k (length texts))
    (with_separators_text k texts) (clean_text_of texts).
Proof.
  revert k. induction texts as [|text texts IH]; intros k.
  { apply removed_done. }
  cbn [length seq with_separators_text clean_text_of]. rewrite fmap_cons.
  apply removed_heading, headings_removed_keep, IH.
Qed.

(** ** A whole run *)

Section run.
Variable as_completed : list (future * nat) → list (future * nat).
Hypothesis as_completed_all : ∀ futures, as_completed futures ≡ₚ futures.

Variable net : nat → request → result response.
Variable pdf : list string.
Variable output_md_path : string.
Variable fs : gmap string string.

Lemma all_content_of_dispatch :
  all_content_of (results (dispatch as_completed net (render_pages 0 pdf)))
    (seq 0 (length pdf)) = Returns (separated 0 (page_entries net pdf)).
Proof.
  rewrite <- (page_entries_length net pdf).
  apply all_content_of_entries. intros j _. by apply dispatch_lookup.
Qed.

(** When every page's entry is a [str], the run ends normally after
    two writes: the pages under their headings, then the pages alone. *)
Lemma pdf_to_md_texts texts :
  page_entries net pdf = PyStr <$> texts →
  pdf_to_md as_completed net pdf output_md_path fs =
    {| run_collected := dispatch as_completed net (render_pages 0 pdf);
       run_writes :=
         [(output_path_with_separators output_md_path, with_separators_text 0 texts);
          (output_md_path, clean_text_of texts)];
       run_fs :=
         <[output_md_path := clean_text_of texts]>
           (<[output_path_with_separators output_md_path :=
                with_separators_text 0 texts]> fs);
       run_raised := None |}.
Proof.
  intros Htexts. unfold pdf_to_md.
  rewrite all_content_of_dispatch, Htexts, str_join_separated.
  by rewrite (clean_content_separated 0), str_join_texts.
Qed.
End run.

(** The files do not depend on the completion order, whatever the
    entries are. *)
Lemma pdf_to_md_order as_completed1 as_completed2 net pdf output_md_path fs :
  (∀ futures, as_completed1 futures ≡ₚ futures) →
  (∀ futures, as_completed2 futures ≡ₚ futures) →
  let r1 := pdf_to_md as_completed1 net pdf output_md_path fs in
  let r2 := pdf_to_md as_completed2 net pdf output_md_path fs in
  results (run_collected r1) = results (run_collected r2) ∧
  run_writes r1 = run_writes r2 ∧ run_fs r1 = run_fs r2 ∧
  run_raised r1 = run_raised r2.
Proof.
  intros H1 H2. simpl.
  assert (results (dispatch as_completed1 net (render_pages 0 pdf)) =
          results (dispatch as_completed2 net (render_pages 0 pdf))) as Hres.
  { apply map_eq. intros i. by rewrite !dispatch_lookup. }
  unfold pdf_to_md. rewrite Hres.
  destruct (all_content_of _ _) as [all_content|e]; [|done].
  destruct (str_join all_content) as [combined_text|e]; [|done].
  by destruct (str_join (clean_content_of 0 all_content)).
Qed.

(** ** The flow *)

Section flow.
Variable net : nat → request → result response.
Variable pdf : list string.
Variable output_md_path : string.
Variable fs0 : gmap string string.

#[local] Abbreviation futures := (future_to_page net (render_pages 0 pdf)).
#[local] Abbreviation steps := (rtc (step (length pdf) output_md_path)).
#[local] Abbreviation start := (flow_start net pdf fs0).

Lemma collecting_steps order pending st fs :
  pending ≡ₚ order →
  steps (Collecting pending st fs) (Collecting [] (foldl collect st order) fs).
Proof.
  revert pending st. induction order as [|entry order IH]; intros pending st Hp.
  { apply Permutation_nil_r in Hp as ->. apply rtc_refl. }
  assert (entry ∈ pending) as Hin by (rewrite Hp; left).
  apply list_elem_of_split in Hin as (before & after & ->).
  eapply rtc_l; [apply step_collect |]. cbn [foldl]. apply IH.
  rewrite <- Permutation_middle in Hp. by apply Permutation_cons_inv in Hp.
Qed.

(** A run of [pdf_to_md] is a path of the flow. *)
Lemma pdf_to_md_flow as_completed :
  (∀ l, as_completed l ≡ₚ l) →
  steps start (flow_of_run (pdf_to_md as_completed net pdf output_md_path fs0)).
Proof.
  intros Hall. eapply rtc_trans.
  { apply (collecting_steps (as_completed futures)). symmetry. apply Hall. }
  fold (dispatch as_completed net (render_pages 0 pdf)).
  unfold pdf_to_md, flow_of_run.
  destruct (all_content_of _ _) as [all_content|e] eqn:Hall_content;
    cbn [run_raised run_collected run_fs].
  2:{ apply rtc_once. by apply step_assemble_key. }
  destruct (str_join all_content) as [combined_text|e] eqn:Hcombined;
    cbn [run_raised run_collected run_fs].
  2:{ apply rtc_once. by eapply step_assemble_join. }
  eapply rtc_l; [by apply step_assemble |].
  destruct (str_join (clean_content_of 0 all_content)) as [clean_text|e] eqn:Hclean;
    cbn [run_raised run_collected run_fs].
  - eapply rtc_l; [by apply step_write_separators |].
    apply rtc_once, step_write_clean.
  - apply rtc_once. by apply step_write_separators_join.
Qed.

Lemma flow_inv_start : flow_inv net pdf fs0 start.
Proof.
  split; [|done]. exists []. split; [|done]. by rewrite app_nil_r.
Qed.

Lemma flow_inv_step s s' :
  step (length pdf) output_md_path s s' → flow_inv net pdf fs0 s → flow_inv net pdf fs0 s'.
Proof.
  intros Hstep ((handed_back & Hperm & Hcollected) & Hfs & Hpending).
  destruct Hstep; cbn in *; (split; [|by auto]);
    try (exists handed_back; by split).
  exists (handed_back ++ [entry]). split.
  - cbn [flow_pending]. rewrite <- Hperm. solve_Permutation.
  - cbn [flow_collected]. by rewrite foldl_snoc, <- Hcollected.
Qed.

Lemma flow_inv_reachable s : steps start s → flow_inv net pdf fs0 s.
Proof.
  revert s. apply rtc_ind_r.
  - apply flow_inv_start.
  - intros s s' _ Hstep IH. by eapply flow_inv_step.
Qed.
End flow.

(** ** The properties of the specification *)

Lemma run_collected_dispatch as_completed net pdf output_md_path fs :
  run_collected (pdf_to_md as_completed net pdf output_md_path fs) =
    dispatch as_completed net (render_pages 0 pdf).
Proof.
  unfold pdf_to_md.
  destruct (all_content_of _ _) as [all_content|e]; [|done].
  destruct (str_join all_content) as [combined_text|e]; [|done].
  by destruct (str_join (clean_content_of 0 all_content)).
Qed.

Lemma texts_length net pdf texts :
  page_entries net pdf = PyStr <$> texts → length texts = length pdf.
Proof.
  intros H. by rewrite <- (page_entries_length net pdf), H, length_fmap.
Qed.

(** C1. For a document of N pages, after the dispatch phase of
    [pdf_to_md] the [results] mapping has exactly N entries and its keys
    are 0, ..., N-1, for every completion order and every behaviour of
    the service; a page whose call failed has its failure marker as
    entry, so this holds when every call fails. *)
Theorem dispatch_one_entry_per_page as_completed net pdf output_md_path fs :
  (∀ futures, as_completed futures ≡ₚ futures) →
  let st := run_collected (pdf_to_md as_completed net pdf output_md_path fs) in
  dom (results st) = set_seq 0 (length pdf) ∧
  size (results st) = length pdf ∧
  ∀ page_num image e,
    pdf !! page_num = Some image →
    (ocr_image net page_num image).2 = Raises e →
    results st !! page_num = Some (PyStr ("[处理失败: " +:+ exn_str e +:+ "]")).
Proof.
  intros Hall st. subst st. rewrite run_collected_dispatch.
  pose proof (dispatch_dom net pdf as_completed Hall) as Hdom.
  split; [done |]. split.
  - by rewrite <- size_dom, Hdom, size_set_seq.
  - intros page_num image e Himage Hraise.
    rewrite dispatch_lookup, page_entries_lookup, Himage by done.
    cbn [fmap option_fmap option_map]. by rewrite Hraise.
Qed.

Lemma dispatch_one_entry_per_page_witness :
  (∀ futures : list (future * nat), reverse futures ≡ₚ futures) ∧
  let st := run_collected (pdf_to_md reverse failing_net sample_pdf "out.md" ∅) in
  dom (results st) = set_seq 0 5 ∧
  size (results st) = 5 ∧
  ∀ page_num image e,
    sample_pdf !! page_num = Some image →
    (ocr_image failing_net page_num image).2 = Raises e →
    results st !! page_num = Some (PyStr ("[处理失败: " +:+ exn_str e +:+ "]")).
Proof.
  split; [apply reverse_Permutation |].
  apply (dispatch_one_entry_per_page reverse failing_net sample_pdf "out.md" ∅).
  apply reverse_Permutation.
Defined.

Lemma page_entries_text_of net pdf (text_of : nat → string) :
  (∀ page_num image,
     pdf !! page_num = Some image →
     page_entry (ocr_image net page_num image).2 = PyStr (text_of page_num)) →
  page_entries net pdf = PyStr <$> (text_of <$> seq 0 (length pdf)).
Proof.
  intros Htext. apply list_eq. intros page_num.
  rewrite page_entries_lookup, !list_lookup_fmap.
  destruct (pdf !! page_num) as [image|] eqn:Himage.
  - rewrite lookup_seq_lt by (by eapply lookup_lt_Some).
    cbn [fmap option_fmap option_map]. f_equal. by apply Htext.
  - rewrite lookup_seq_ge; [done |]. by apply lookup_ge_None.
Qed.

(** C2. In both files [pdf_to_md] writes, the pages come in increasing
    page order, page 0 first and page N-1 last: with [text_of i] the
    entry of page [i], the file with separators is heading 1, [text_of 0],
    heading 2, [text_of 1], ..., and the clean file is [text_of 0],
    [text_of 1], ...; and the files are the same for every completion
    order. *)
Theorem pdf_to_md_page_order as_completed net pdf output_md_path fs text_of :
  (∀ futures, as_completed futures ≡ₚ futures) →
  (∀ page_num image,
     pdf !! page_num = Some image →
     page_entry (ocr_image net page_num image).2 = PyStr (text_of page_num)) →
  let r := pdf_to_md as_completed net pdf output_md_path fs in
  let in_page_order := text_of <$> seq 0 (length pdf) in
  run_writes r =
    [(output_path_with_separators output_md_path,
      with_separators_text 0 in_page_order);
     (output_md_path, clean_text_of in_page_order)] ∧
  ∀ as_completed',
    (∀ futures, as_completed' futures ≡ₚ futures) →
    let r' := pdf_to_md as_completed' net pdf output_md_path fs in
    run_writes r' = run_writes r ∧ run_fs r' = run_fs r.
Proof.
  intros Hall Htext r in_page_order. subst r in_page_order. split.
  - rewrite (pdf_to_md_texts _ Hall _ _ _ _ (text_of <$> seq 0 (length pdf)));
      [done |]. by apply page_entries_text_of.
  - intros as_completed' Hall'.
    destruct (pdf_to_md_order as_completed' as_completed net pdf output_md_path fs
                Hall' Hall) as (_ & Hw & Hfs & _).
    done.
Qed.

Lemma sample_text_of page_num image :
  sample_pdf !! page_num = Some image →
  page_entry (ocr_image sample_net page_num image).2 =
    PyStr (nth page_num sample_texts "").
Proof.
  intros Hpage.
  do 5 (destruct page_num as [|page_num];
        [injection Hpage as <-; reflexivity |]).
  done.
Qed.

Lemma pdf_to_md_page_order_witness :
  (∀ futures : list (future * nat), reverse futures ≡ₚ futures) ∧
  (∀ page_num image,
     sample_pdf !! page_num = Some image →
     page_entry (ocr_image sample_net page_num image).2 =
       PyStr (nth page_num sample_texts "")) ∧
  let r := pdf_to_md reverse sample_net sample_pdf "out/scan.md" ∅ in
  let in_page_order := (λ i, nth i sample_texts "") <$> seq 0 (length sample_pdf) in
  run_writes r =
    [(output_path_with_separators "out/scan.md",
      with_separators_text 0 in_page_order);
     ("out/scan.md", clean_text_of in_page_order)] ∧
  ∀ as_completed',
    (∀ futures, as_completed' futures ≡ₚ futures) →
    let r' := pdf_to_md as_completed' sample_net sample_pdf "out/scan.md" ∅ in
    run_writes r' = run_writes r ∧ run_fs r' = run_fs r.
Proof.
  split; [apply reverse_Permutation |]. split; [apply sample_text_of |].
  apply (pdf_to_md_page_order reverse sample_net sample_pdf "out/scan.md" ∅
           (λ i, nth i sample_texts "")).
  - apply reverse_Permutation.
  - apply sample_text_of.
Defined.

(** C5. The clean file is the file with separators with the heading of
    every page, blank lines included, taken out, in page order; it is the
    concatenation of the entries of pages 0, ..., N-1. *)
Theorem clean_file_is_separators_removed as_completed net pdf output_md_path fs texts :
  (∀ futures, as_completed futures ≡ₚ futures) →
  page_entries net pdf = PyStr <$> texts →
  let r := pdf_to_md as_completed net pdf output_md_path fs in
  ∃ combined_text clean_text,
    run_writes r =
      [(output_path_with_separators output_md_path, combined_text);
       (output_md_path, clean_text)] ∧
    headings_removed (separator <$> seq 0 (length pdf)) combined_text clean_text ∧
    clean_text = clean_text_of texts ∧
    ∀ page_num, results (run_collected r) !! page_num = PyStr <$> texts !! page_num.
Proof.
  intros Hall Htexts r. subst r.
  exists (with_separators_text 0 texts), (clean_text_of texts).
  rewrite (pdf_to_md_texts _ Hall _ _ _ _ texts) by done. cbn [run_writes run_collected].
  split; [done |]. split; [|split; [done |]].
  - rewrite <- (texts_length net pdf texts) by done. apply headings_removed_pages.
  - intros page_num. rewrite dispatch_lookup, Htexts by done.
    by rewrite list_lookup_fmap.
Qed.

Lemma clean_file_is_separators_removed_witness :
  (∀ futures : list (future * nat), reverse futures ≡ₚ futures) ∧
  page_entries sample_net sample_pdf = PyStr <$> sample_texts ∧
  let r := pdf_to_md reverse sample_net sample_pdf "out/scan.md" ∅ in
  ∃ combined_text clean_text,
    run_writes r =
      [(output_path_with_separators "out/scan.md", combined_text);
       ("out/scan.md", clean_text)] ∧
    headings_removed (separator <$> seq 0 (length sample_pdf)) combined_text clean_text ∧
    clean_text = clean_text_of sample_texts ∧
    ∀ page_num,
      results (run_collected r) !! page_num = PyStr <$> sample_texts !! page_num.
Proof.
  split; [apply reverse_Permutation |]. split; [reflexivity |].
  apply (clean_file_is_separators_removed reverse sample_net sample_pdf
           "out/scan.md" ∅ sample_texts).
  - apply reverse_Permutation.
  - reflexivity.
Defined.

Lemma output_path_of_md stem :
  occurs ".md" stem = false →
  output_path_with_separators (stem +:+ ".md") = stem +:+ "_with_separators.md".
Proof.
  intros Hstem. change (stem +:+ ".md") with (stem +:+ ".md" +:+ "").
  rewrite output_path_occurrence, (output_path_absent stem) by done.
  reflexivity.
Qed.

(** C3, as stated, fails on a path without [.md]: with [report.txt] the
    version with separators is written to [report.txt] itself, not to
    [report_with_separators.txt]. *)
Lemma with_separators_path_not_inserted :
  let r := pdf_to_md reverse answering_net sample_pdf "report.txt" ∅ in
  run_raised r = None ∧
  (run_writes r).*1 = ["report.txt"; "report.txt"] ∧
  insert_before_extension "_with_separators" "report.txt" =
    "report_with_separators.txt" ∧
  (run_writes r).*1 ≠
    [insert_before_extension "_with_separators" "report.txt"; "report.txt"].
Proof.
  repeat split; try reflexivity. vm_compute. discriminate.
Qed.

(** C3, amended. For an output path that ends in [.md] and has no other
    [.md] in it, the version with separators is written to the path with
    [_with_separators] inserted before that extension and the clean
    version to the path itself. *)
Theorem with_separators_path_of_md as_completed net pdf stem fs texts :
  (∀ futures, as_completed futures ≡ₚ futures) →
  page_entries net pdf = PyStr <$> texts →
  occurs ".md" stem = false →
  let output_md_path := stem +:+ ".md" in
  let r := pdf_to_md as_completed net pdf output_md_path fs in
  insert_before_extension "_with_separators" output_md_path =
    stem +:+ "_with_separators.md" ∧
  run_writes r =
    [(stem +:+ "_with_separators.md", with_separators_text 0 texts);
     (output_md_path, clean_text_of texts)].
Proof.
  intros Hall Htexts Hstem output_md_path r. subst r output_md_path. split.
  - unfold insert_before_extension. by rewrite split_extension_md.
  - rewrite (pdf_to_md_texts _ Hall _ _ _ _ texts) by done.
    cbn [run_writes]. by rewrite output_path_of_md.
Qed.

Lemma with_separators_path_of_md_witness :
  (∀ futures : list (future * nat), reverse futures ≡ₚ futures) ∧
  page_entries sample_net sample_pdf = PyStr <$> sample_texts ∧
  occurs ".md" "out/scan" = false ∧
  let output_md_path := "out/scan" +:+ ".md" in
  let r := pdf_to_md reverse sample_net sample_pdf output_md_path ∅ in
  insert_before_extension "_with_separators" output_md_path =
    "out/scan" +:+ "_with_separators.md" ∧
  run_writes r =
    [("out/scan" +:+ "_with_separators.md", with_separators_text 0 sample_texts);
     (output_md_path, clean_text_of sample_texts)].
Proof.
  split; [apply reverse_Permutation |]. split; [reflexivity |].
  split; [reflexivity |].
  apply (with_separators_path_of_md reverse sample_net sample_pdf "out/scan" ∅
           sample_texts).
  - apply reverse_Permutation.
  - reflexivity.
  - reflexivity.
Defined.

(** C9. When the output path has no [.md] in it, the path of the version
    with separators is the output path itself: both versions go to the
    same file and the clean one is what is left.  And the replacement
    applies at every [.md] of a path, not at the final extension alone. *)
Theorem with_separators_path_replaces_md as_completed net pdf output_md_path fs texts :
  (∀ futures, as_completed futures ≡ₚ futures) →
  page_entries net pdf = PyStr <$> texts →
  occurs ".md" output_md_path = false →
  let r := pdf_to_md as_completed net pdf output_md_path fs in
  (output_path_with_separators output_md_path = output_md_path ∧
   run_writes r =
     [(output_md_path, with_separators_text 0 texts);
      (output_md_path, clean_text_of texts)] ∧
   run_fs r = <[output_md_path := clean_text_of texts]> fs) ∧
  (∀ before after,
     output_path_with_separators (before +:+ ".md" +:+ after) =
       output_path_with_separators before +:+ "_with_separators.md"
         +:+ output_path_with_separators after) ∧
  (∀ first second third,
     occurs ".md" first = false → occurs ".md" second = false →
     occurs ".md" third = false →
     output_path_with_separators
       (first +:+ ".md" +:+ second +:+ ".md" +:+ third) =
       first +:+ "_with_separators.md" +:+ second +:+ "_with_separators.md"
         +:+ third).
Proof.
  intros Hall Htexts Hpath r. subst r.
  pose proof (output_path_absent _ Hpath) as Hsame.
  split; [|split].
  - rewrite (pdf_to_md_texts _ Hall _ _ _ _ texts) by done.
    cbn [run_writes run_fs]. rewrite Hsame. by rewrite insert_insert_eq.
  - apply output_path_occurrence.
  - intros first second third H1 H2 H3.
    rewrite !output_path_occurrence. by rewrite !output_path_absent.
Qed.

Lemma with_separators_path_replaces_md_witness :
  (∀ futures : list (future * nat), reverse futures ≡ₚ futures) ∧
  page_entries sample_net sample_pdf = PyStr <$> sample_texts ∧
  occurs ".md" "report.txt" = false ∧
  let r := pdf_to_md reverse sample_net sample_pdf "report.txt" ∅ in
  (output_path_with_separators "report.txt" = "report.txt" ∧
   run_writes r =
     [("report.txt", with_separators_text 0 sample_texts);
      ("report.txt", clean_text_of sample_texts)] ∧
   run_fs r = <["report.txt" := clean_text_of sample_texts]> ∅) ∧
  (∀ before after,
     output_path_with_separators (before +:+ ".md" +:+ after) =
       output_path_with_separators before +:+ "_with_separators.md"
         +:+ output_path_with_separators after) ∧
  (∀ first second third,
     occurs ".md" first = false → occurs ".md" second = false →
     occurs ".md" third = false →
     output_path_with_separators
       (first +:+ ".md" +:+ second +:+ ".md" +:+ third) =
       first +:+ "_with_separators.md" +:+ second +:+ "_with_separators.md"
         +:+ third).
Proof.
  split; [apply reverse_Permutation |]. split; [reflexivity |].
  split; [reflexivity |].
  apply (with_separators_path_replaces_md reverse sample_net sample_pdf
           "report.txt" ∅ sample_texts).
  - apply reverse_Permutation.
  - reflexivity.
  - reflexivity.
Defined.

Example output_path_two_md :
  output_path_with_separators "notes.md.d/scan.md" =
    "notes_with_separators.md.d/scan_with_separators.md".
Proof. reflexivity. Qed.

(** ** Failures of the OCR call *)

Lemma ocr_image_calls net page_num image_base64 :
  (ocr_image net page_num image_base64).1 = [ocr_request image_base64].
Proof. done. Qed.

Lemma ocr_image_ext net net' page_num image_base64 :
  (∀ req, net' page_num req = net page_num req) →
  ocr_image net' page_num image_base64 = ocr_image net page_num image_base64.
Proof. intros Hnet. unfold ocr_image. by rewrite Hnet. Qed.

Lemma ocr_image_post_raises net page_num image_base64 e :
  net page_num (ocr_request image_base64) = Raises e →
  (ocr_image net page_num image_base64).2 =
    match exn_class_of e with
    | Timeout =>
        Raises (Exn Exception ("请求超时（" +:+ pretty REQUEST_TIMEOUT +:+ "秒）"))
    | RequestException => Raises (Exn Exception ("请求失败: " +:+ exn_str e))
    | KeyError | IndexError =>
        Raises (Exn Exception ("响应解析失败: " +:+ exn_str e))
    | TypeError | Exception => Raises e
    end.
Proof. intros Hnet. unfold ocr_image. cbn [snd]. by rewrite Hnet. Qed.

Lemma run_requests_from net k pdf :
  (future_to_page net (render_pages k pdf)).*1 ≫= fut_calls = ocr_request <$> pdf.
Proof.
  revert k. induction pdf as [|image pdf IH]; intros k; [done |].
  cbn [render_pages future_to_page map]. rewrite !fmap_cons, bind_cons.
  cbn [fst]. rewrite submit_calls, ocr_image_calls.
  cbn [app]. f_equal. apply IH.
Qed.

(** C6 fails as stated on a final status outside 2xx that is no error for
    [raise_for_status]: a complete answer sent with status 300 is returned
    as the text of the page, and no failure is recorded. *)
Lemma status_300_is_no_failure :
  let r := pdf_to_md reverse multiple_choices_net ["cGFnZTA="] "out.md" ∅ in
  ¬ (200 ≤ status_code (sample_response 300 "Multiple Choices"
                          (sample_body "text of the page")) < 300) ∧
  (ocr_image multiple_choices_net 0 "cGFnZTA=").2 = Returns (PyStr "text of the page") ∧
  results (run_collected r) !! 0 = Some (PyStr "text of the page") ∧
  failed_pages (run_collected r) = [].
Proof.
  split; [cbn; lia |]. repeat split; reflexivity.
Qed.

(** C6, amended. A call that ends in a timeout, in another request
    error of the transport, in a 4xx or 5xx status, or in a body where
    [choices], its first element, [message] or [content] is absent,
    raises an exception whose message names the category: timeout with
    the configured value, request error, response-parse error; the entry
    stored for the page is that message as a failure marker.  The call is
    made once, and a run makes one call per page. *)
Theorem ocr_image_failure_categories net page_num image_base64 :
  let req := ocr_request image_base64 in
  let outcome := (ocr_image net page_num image_base64).2 in
  (∀ e, net page_num req = Raises e → exn_class_of e = Timeout →
     outcome =
       Raises (Exn Exception ("请求超时（" +:+ pretty REQUEST_TIMEOUT +:+ "秒）"))) ∧
  (∀ e, net page_num req = Raises e → exn_class_of e = RequestException →
     outcome = Raises (Exn Exception ("请求失败: " +:+ exn_str e))) ∧
  (∀ r, net page_num req = Returns r → 400 ≤ status_code r < 600 →
     ∃ msg, outcome = Raises (Exn Exception ("请求失败: " +:+ msg))) ∧
  (∀ r body,
     net page_num req = Returns r → ¬ (400 ≤ status_code r < 600) →
     json r = Returns body → text_field_missing body = true →
     ∃ msg, outcome = Raises (Exn Exception ("响应解析失败: " +:+ msg))) ∧
  (∀ e, outcome = Raises e →
     page_entry outcome = PyStr ("[处理失败: " +:+ exn_str e +:+ "]")) ∧
  (ocr_image net page_num image_base64).1 = [req] ∧
  (∀ pdf, run_requests net pdf = ocr_request <$> pdf).
Proof.
  intros req outcome. subst req outcome. repeat split.
  - intros e Hnet Hclass. by rewrite (ocr_image_post_raises _ _ _ e), Hclass.
  - intros e Hnet Hclass. by rewrite (ocr_image_post_raises _ _ _ e), Hclass.
  - intros r Hnet Hstatus. unfold ocr_image. cbn [snd]. rewrite Hnet.
    cbn [bind]. unfold raise_for_status.
    destruct (decide (400 ≤ status_code r < 500)); [by eexists |].
    rewrite decide_True by lia. by eexists.
  - intros r body Hnet Hstatus Hjson Hmissing. unfold ocr_image. cbn [snd].
    rewrite Hnet. cbn [bind]. unfold raise_for_status.
    rewrite !decide_False by lia. cbn [bind]. rewrite Hjson. cbn [bind].
    destruct body as [| | | | | |items]; try done.
    cbn [text_field_missing] in Hmissing. cbn [getitem].
    destruct (dict_get items "choices") as [[| | | | |[|[| | | | | |choice] ?]|]|];
      try done; cbn [bind getitem lookup list_lookup exn_class_of];
      try by eexists.
    destruct (dict_get choice "message") as [[| | | | | |message]|];
      try done; cbn [bind getitem exn_class_of]; try by eexists.
    destruct (dict_get message "content"); [done |].
    cbn [bind exn_class_of]. by eexists.
  - intros e ->. done.
  - intros pdf. apply run_requests_from.
Qed.

Lemma ocr_image_failure_categories_witness :
  (ocr_image sample_net 1 "cGFnZTE=").2 =
    Raises (Exn Exception "请求超时（120秒）") ∧
  (ocr_image failing_net 0 "cGFnZTA=").2 =
    Raises (Exn Exception "请求失败: Connection refused") ∧
  (∃ msg, (ocr_image sample_net 2 "cGFnZTI=").2 =
            Raises (Exn Exception ("请求失败: " +:+ msg))) ∧
  (∃ msg, (ocr_image sample_net 3 "cGFnZTM=").2 =
            Raises (Exn Exception ("响应解析失败: " +:+ msg))) ∧
  run_requests sample_net sample_pdf = ocr_request <$> sample_pdf.
Proof.
  split; [|split; [|split; [|split]]].
  - destruct (ocr_image_failure_categories sample_net 1 "cGFnZTE=") as (H & _).
    apply (H (Exn Timeout "Read timed out. (read timeout=120)")); reflexivity.
  - destruct (ocr_image_failure_categories failing_net 0 "cGFnZTA=") as (_ & H & _).
    apply (H (Exn RequestException "Connection refused")); reflexivity.
  - destruct (ocr_image_failure_categories sample_net 2 "cGFnZTI=") as (_ & _ & H & _).
    apply (H (sample_response 500 "Internal Server Error" PyNone));
      [reflexivity | cbn; lia].
  - destruct (ocr_image_failure_categories sample_net 3 "cGFnZTM=")
      as (_ & _ & _ & H & _).
    apply (H (sample_response 200 "OK" (PyDict [])) (PyDict []));
      [reflexivity | cbn; lia | reflexivity | reflexivity].
  - destruct (ocr_image_failure_categories sample_net 0 "cGFnZTA=")
      as (_ & _ & _ & _ & _ & _ & H).
    apply H.
Defined.

Lemma all_str_texts (entries : list pyval) :
  (∀ v, v ∈ entries → ∃ s, v = PyStr s) → ∃ texts, entries = PyStr <$> texts.
Proof.
  induction entries as [|v entries IH]; intros Hstr.
  { by exists []. }
  destruct (Hstr v) as [s ->]; [left |].
  destruct IH as [texts ->].
  { intros w Hw. apply Hstr. by right. }
  by exists (s :: texts).
Qed.

(** The contract of the service: a text that comes back is a [str]. *)
Lemma page_entries_texts net pdf :
  (∀ page_num image v,
     pdf !! page_num = Some image →
     (ocr_image net page_num image).2 = Returns v → ∃ s, v = PyStr s) →
  ∃ texts, page_entries net pdf = PyStr <$> texts.
Proof.
  intros Hcontract. apply all_str_texts. intros v Hv.
  apply list_elem_of_lookup in Hv as [page_num Hv].
  rewrite page_entries_lookup in Hv.
  destruct (pdf !! page_num) as [image|] eqn:Himage; [|done].
  cbn [fmap option_fmap option_map] in Hv. apply (inj Some) in Hv as <-.
  destruct ((ocr_image net page_num image).2) as [text|e] eqn:Houtcome.
  - cbn [page_entry]. by apply (Hcontract page_num image).
  - by eexists.
Qed.

(** C7. When the request of one page times out, the entry of that page
    is a failure marker that carries the configured timeout, 120 seconds;
    the entries of the other pages are what they are without the timeout;
    and the run ends normally with both files written. *)
Theorem timeout_stays_on_its_page as_completed net pdf output_md_path fs
    page_num image e :
  (∀ futures, as_completed futures ≡ₚ futures) →
  (∀ other image' v,
     pdf !! other = Some image' →
     (ocr_image net other image').2 = Returns v → ∃ s, v = PyStr s) →
  pdf !! page_num = Some image →
  net page_num (ocr_request image) = Raises e →
  exn_class_of e = Timeout →
  let r := pdf_to_md as_completed net pdf output_md_path fs in
  let marker := "[处理失败: 请求超时（" +:+ pretty REQUEST_TIMEOUT +:+ "秒）]" in
  (results (run_collected r) !! page_num = Some (PyStr marker) ∧
   pretty REQUEST_TIMEOUT = "120" ∧
   occurs (pretty REQUEST_TIMEOUT) marker = true) ∧
  (∀ net',
     (∀ other req, other ≠ page_num → net' other req = net other req) →
     ∀ other, other ≠ page_num →
       results (run_collected (pdf_to_md as_completed net' pdf output_md_path fs))
         !! other = results (run_collected r) !! other) ∧
  (run_raised r = None ∧
   ∃ combined_text clean_text,
     run_writes r =
       [(output_path_with_separators output_md_path, combined_text);
        (output_md_path, clean_text)] ∧
     is_Some (run_fs r !! output_path_with_separators output_md_path) ∧
     run_fs r !! output_md_path = Some clean_text).
Proof.
  intros Hall Hcontract Himage Hnet Hclass r marker. subst r marker.
  split; [|split].
  - split; [|done]. rewrite run_collected_dispatch, dispatch_lookup by done.
    rewrite page_entries_lookup, Himage. cbn [fmap option_fmap option_map].
    by rewrite (ocr_image_post_raises _ _ _ e), Hclass.
  - intros net' Hnet' other Hother.
    rewrite !run_collected_dispatch, !dispatch_lookup by done.
    rewrite !page_entries_lookup. destruct (pdf !! other) as [image'|]; [|done].
    cbn [fmap option_fmap option_map].
    rewrite (ocr_image_ext net net'); [done |]. intros req. by apply Hnet'.
  - destruct (page_entries_texts net pdf Hcontract) as [texts Htexts].
    rewrite (pdf_to_md_texts _ Hall _ _ _ _ texts) by done.
    cbn [run_raised run_writes run_fs]. split; [done |].
    exists (with_separators_text 0 texts), (clean_text_of texts).
    split; [done |]. rewrite lookup_insert_eq. split; [|done].
    destruct (decide (output_md_path = output_path_with_separators output_md_path))
      as [<-|Hne].
    + by rewrite lookup_insert_eq.
    + by rewrite lookup_insert_ne, lookup_insert_eq.
Qed.

Lemma sample_net_contract other image' v :
  sample_pdf !! other = Some image' →
  (ocr_image sample_net other image').2 = Returns v → ∃ s, v = PyStr s.
Proof.
  intros Hother.
  do 5 (destruct other as [|other];
        [injection Hother as <-; intros H; vm_compute in H;
         try discriminate H; injection H as <-; by eexists |]).
  done.
Qed.

Lemma timeout_stays_on_its_page_witness :
  (∀ futures : list (future * nat), reverse futures ≡ₚ futures) ∧
  sample_pdf !! 1 = Some "cGFnZTE=" ∧
  sample_net 1 (ocr_request "cGFnZTE=") =
    Raises (Exn Timeout "Read timed out. (read timeout=120)") ∧
  let r := pdf_to_md reverse sample_net sample_pdf "out/scan.md" ∅ in
  let marker := "[处理失败: 请求超时（" +:+ pretty REQUEST_TIMEOUT +:+ "秒）]" in
  (results (run_collected r) !! 1 = Some (PyStr marker) ∧
   pretty REQUEST_TIMEOUT = "120" ∧
   occurs (pretty REQUEST_TIMEOUT) marker = true) ∧
  (∀ net',
     (∀ other req, other ≠ 1 → net' other req = sample_net other req) →
     ∀ other, other ≠ 1 →
       results (run_collected (pdf_to_md reverse net' sample_pdf "out/scan.md" ∅))
         !! other = results (run_collected r) !! other) ∧
  (run_raised r = None ∧
   ∃ combined_text clean_text,
     run_writes r =
       [(output_path_with_separators "out/scan.md", combined_text);
        ("out/scan.md", clean_text)] ∧
     is_Some (run_fs r !! output_path_with_separators "out/scan.md") ∧
     run_fs r !! "out/scan.md" = Some clean_text).
Proof.
  split; [apply reverse_Permutation |]. split; [reflexivity |].
  split; [reflexivity |].
  apply (timeout_stays_on_its_page reverse sample_net sample_pdf "out/scan.md" ∅
           1 "cGFnZTE=" (Exn Timeout "Read timed out. (read timeout=120)")).
  - apply reverse_Permutation.
  - apply sample_net_contract.
  - reflexivity.
  - reflexivity.
  - reflexivity.
Defined.

(** C8. No file is written before every submitted task has been handed
    back: at every moment of the flow, while a future is still pending
    the files are those the run started with, and once the flow is past
    the loop no future is pending and every page has its entry.  A run of
    [pdf_to_md] is such a flow. *)
Theorem no_write_before_barrier net pdf output_md_path fs0 s :
  rtc (step (length pdf) output_md_path) (flow_start net pdf fs0) s →
  (past_barrier s = false → flow_fs s = fs0) ∧
  (flow_pending s ≠ [] → flow_fs s = fs0) ∧
  (past_barrier s = true →
     flow_pending s = [] ∧
     dom (results (flow_collected s)) = set_seq 0 (length pdf)).
Proof.
  intros Hsteps.
  destruct (flow_inv_reachable net pdf output_md_path fs0 s Hsteps)
    as ((handed_back & Hperm & Hcollected) & Hfs & Hpending).
  split; [done |]. split.
  - intros Hne. apply Hfs. destruct (past_barrier s) eqn:Hpast; [|done].
    by destruct Hne; apply Hpending.
  - intros Hpast. split; [by apply Hpending |].
    rewrite Hpending in Hperm by done. rewrite Hcollected.
    by apply (collected_dom net pdf).
Qed.

Lemma no_write_before_barrier_witness :
  let s := flow_of_run (pdf_to_md reverse sample_net sample_pdf "out/scan.md" ∅) in
  rtc (step (length sample_pdf) "out/scan.md") (flow_start sample_net sample_pdf ∅) s ∧
  (past_barrier s = false → flow_fs s = ∅) ∧
  (flow_pending s ≠ [] → flow_fs s = ∅) ∧
  (past_barrier s = true →
     flow_pending s = [] ∧
     dom (results (flow_collected s)) = set_seq 0 (length sample_pdf)).
Proof.
  intros s.
  assert (rtc (step (length sample_pdf) "out/scan.md")
            (flow_start sample_net sample_pdf ∅) s) as Hsteps.
  { apply pdf_to_md_flow, reverse_Permutation. }
  split; [exact Hsteps |].
  exact (no_write_before_barrier sample_net sample_pdf "out/scan.md" ∅ s Hsteps).
Defined.

(** * Further properties of the code *)

(** ** The counters of the collecting loop *)

Lemma collect_failed_pages st entry :
  failed_pages (collect st entry) =
    failed_pages st ++
      (if raised (fut_outcome entry.1) then [entry.2 + 1] else []).
Proof.
  destruct entry as [f p]. unfold collect. cbn [fst snd].
  destruct (fut_outcome f); cbn [raised failed_pages]; [by rewrite app_nil_r | done].
Qed.

Lemma collect_all_failed_pages st l :
  failed_pages (foldl collect st l) =
    failed_pages st ++
      ((λ entry : future * nat, entry.2 + 1) <$>
         filter (λ entry : future * nat, raised (fut_outcome entry.1) = true) l).
Proof.
  revert st. induction l as [|entry l IH]; intros st.
  { by rewrite app_nil_r. }
  cbn [foldl]. rewrite IH, collect_failed_pages, filter_cons.
  destruct (raised (fut_outcome entry.1)) eqn:Hraised.
  - rewrite decide_True by done. by rewrite fmap_cons, <- (assoc_L (++)).
  - rewrite decide_False by done. by rewrite app_nil_r.
Qed.

Lemma collect_all_counted st l :
  completed (foldl collect st l) + length (failed_pages (foldl collect st l)) =
    completed st + length (failed_pages st) + length l.
Proof.
  revert st. induction l as [|[f p] l IH]; intros st; [simpl; lia |].
  cbn [foldl length]. rewrite IH. unfold collect.
  destruct (fut_outcome f); cbn [completed failed_pages];
    rewrite ?length_app; simpl; lia.
Qed.

Lemma future_to_page_elem net pdf future page_num :
  (future, page_num) ∈ future_to_page net (render_pages 0 pdf) ↔
  ∃ image, pdf !! page_num = Some image ∧ future = submit net page_num image.
Proof.
  unfold future_to_page. rewrite list_elem_of_fmap. split.
  - intros ([p image] & [= -> ->] & Hin).
    apply list_elem_of_lookup in Hin as [i Hi].
    rewrite render_pages_lookup in Hi.
    destruct (pdf !! i) as [image'|] eqn:Himage; [|done].
    cbn in Hi. injection Hi as <- <-. by exists image'.
  - intros (image & Himage & ->). exists (page_num, image). split; [done |].
    apply list_elem_of_lookup. exists page_num.
    by rewrite render_pages_lookup, Himage.
Qed.

Lemma future_to_page_length net pdf :
  length (future_to_page net (render_pages 0 pdf)) = length pdf.
Proof.
  rewrite <- (length_fmap snd), future_to_page_snd, render_pages_fst.
  apply length_seq.
Qed.

(** X1. [failed_pages] lists the failed pages, numbered from 1, in the
    order in which their futures were handed back: no number twice, and a
    number is listed exactly when the call of that page raised. *)
Theorem failed_pages_are_the_failures as_completed net pdf output_md_path fs :
  (∀ futures, as_completed futures ≡ₚ futures) →
  let st := run_collected (pdf_to_md as_completed net pdf output_md_path fs) in
  failed_pages st =
    ((λ entry : future * nat, entry.2 + 1) <$>
       filter (λ entry : future * nat, raised (fut_outcome entry.1) = true)
         (as_completed (future_to_page net (render_pages 0 pdf)))) ∧
  NoDup (failed_pages st) ∧
  ∀ n, n ∈ failed_pages st ↔
       ∃ page_num image e,
         n = page_num + 1 ∧ pdf !! page_num = Some image ∧
         (ocr_image net page_num image).2 = Raises e.
Proof.
  intros Hall st. subst st. rewrite run_collected_dispatch. unfold dispatch.
  rewrite collect_all_failed_pages. cbn [collect_init failed_pages app].
  set (futures := future_to_page net (render_pages 0 pdf)).
  split; [done |]. split.
  - assert (∀ l : list (future * nat),
              (λ entry : future * nat, entry.2 + 1) <$> l = (λ p, p + 1) <$> l.*2)
      as ->.
    { intros l. by rewrite <- list_fmap_compose. }
    apply NoDup_fmap; [intros p q; lia |].
    eapply sublist_NoDup; [|apply fmap_sublist, sublist_filter].
    rewrite (Hall futures). unfold futures.
    rewrite future_to_page_snd, render_pages_fst. apply NoDup_seq.
  - intros n. rewrite list_elem_of_fmap. split.
    + intros ([f p] & -> & Hin). apply list_elem_of_filter in Hin as [Hraised Hin].
      rewrite (Hall futures) in Hin.
      apply future_to_page_elem in Hin as (image & Himage & ->).
      cbn [fst snd] in *. rewrite submit_outcome in Hraised.
      destruct ((ocr_image net p image).2) as [|e] eqn:Houtcome; [done |].
      by exists p, image, e.
    + intros (p & image & e & -> & Himage & Houtcome).
      exists (submit net p image, p). split; [done |].
      apply list_elem_of_filter. split.
      * cbn [fst]. by rewrite submit_outcome, Houtcome.
      * rewrite (Hall futures). apply future_to_page_elem. by exists image.
Qed.

Lemma failed_pages_are_the_failures_witness :
  (∀ futures : list (future * nat), reverse futures ≡ₚ futures) ∧
  let st := run_collected (pdf_to_md reverse sample_net sample_pdf "out/scan.md" ∅) in
  failed_pages st =
    ((λ entry : future * nat, entry.2 + 1) <$>
       filter (λ entry : future * nat, raised (fut_outcome entry.1) = true)
         (reverse (future_to_page sample_net (render_pages 0 sample_pdf)))) ∧
  NoDup (failed_pages st) ∧
  ∀ n, n ∈ failed_pages st ↔
       ∃ page_num image e,
         n = page_num + 1 ∧ sample_pdf !! page_num = Some image ∧
         (ocr_image sample_net page_num image).2 = Raises e.
Proof.
  split; [apply reverse_Permutation |].
  apply (failed_pages_are_the_failures reverse sample_net sample_pdf "out/scan.md" ∅).
  apply reverse_Permutation.
Defined.

(** X2. Every page is counted once: when the loop is over, [completed]
    plus the number of failed pages is the number of pages, so no page
    failed exactly when [completed] reached the page count. *)
Theorem every_page_counted_once as_completed net pdf output_md_path fs :
  (∀ futures, as_completed futures ≡ₚ futures) →
  let st := run_collected (pdf_to_md as_completed net pdf output_md_path fs) in
  completed st + length (failed_pages st) = length pdf ∧
  (failed_pages st = [] ↔ completed st = length pdf).
Proof.
  intros Hall st. subst st. rewrite run_collected_dispatch. unfold dispatch.
  pose proof (collect_all_counted collect_init
                (as_completed (future_to_page net (render_pages 0 pdf)))) as Hsum.
  assert (length (as_completed (future_to_page net (render_pages 0 pdf))) =
          length pdf) as Hlen.
  { rewrite (Hall _). apply future_to_page_length. }
  rewrite Hlen in Hsum. cbn in Hsum.
  split; [done |]. split.
  - intros Hnone. rewrite Hnone in Hsum. simpl in Hsum. lia.
  - intros Hcompleted. apply length_zero_iff_nil. lia.
Qed.

Lemma every_page_counted_once_witness :
  (∀ futures : list (future * nat), reverse futures ≡ₚ futures) ∧
  let st := run_collected (pdf_to_md reverse sample_net sample_pdf "out/scan.md" ∅) in
  completed st + length (failed_pages st) = length sample_pdf ∧
  (failed_pages st = [] ↔ completed st = length sample_pdf).
Proof.
  split; [apply reverse_Permutation |].
  apply (every_page_counted_once reverse sample_net sample_pdf "out/scan.md" ∅).
  apply reverse_Permutation.
Defined.

(** ** How a run ends and what it leaves in the files *)





Example null_content_aborts :
  run_raised (pdf_to_md reverse null_content_net sample_pdf "out/scan.md" ∅) =
    Some (Exn TypeError "sequence item 3: expected str instance, NoneType found").
Proof. reflexivity. Qed.



(** X5. Running again over the files of a first run, with the same
    document and the same answers, in any completion order, leaves the
    files as they are: the outputs are replaced, not appended to. *)
Theorem rerun_leaves_files as_completed1 as_completed2 net pdf output_md_path fs :
  (∀ futures, as_completed1 futures ≡ₚ futures) →
  (∀ futures, as_completed2 futures ≡ₚ futures) →
  let first := pdf_to_md as_completed1 net pdf output_md_path fs in
  run_fs (pdf_to_md as_completed2 net pdf output_md_path (run_fs first)) =
    run_fs first.
Proof.
  intros H1 H2 first. subst first. unfold pdf_to_md.
  rewrite !all_content_of_dispatch by done.
  destruct (str_join (separated 0 (page_entries net pdf)))
    as [combined_text|e]; [|done].
  destruct (str_join (clean_content_of 0 (separated 0 (page_entries net pdf))))
    as [clean_text|e]; cbn [run_fs].
  - apply map_eq. intros path. rewrite !lookup_insert.
    repeat case_decide; done.
  - by rewrite insert_insert_eq.
Qed.

Lemma rerun_leaves_files_witness :
  (∀ futures : list (future * nat), reverse futures ≡ₚ futures) ∧
  (∀ futures : list (future * nat), id futures ≡ₚ futures) ∧
  let first := pdf_to_md reverse sample_net sample_pdf "out/scan.md" ∅ in
  run_fs (pdf_to_md id sample_net sample_pdf "out/scan.md" (run_fs first)) =
    run_fs first.
Proof.
  split; [apply reverse_Permutation |]. split; [done |].
  apply (rerun_leaves_files reverse id sample_net sample_pdf "out/scan.md" ∅).
  - apply reverse_Permutation.
  - done.
Defined.



(** ** The path of the file with separators *)






(** ** The OCR call *)

(** X8. [ocr_image] returns a value exactly when the service answered,
    the status is no 4xx or 5xx, the body parsed, and the value is
    [body['choices'][0]['message']['content']]: no handler turns an error
    into a text, and nothing but the first choice is read. *)
Theorem ocr_image_returns_iff net page_num image_base64 v :
  (ocr_image net page_num image_base64).2 = Returns v ↔
  ∃ r body choices choice message,
    net page_num (ocr_request image_base64) = Returns r ∧
    ¬ (400 ≤ status_code r < 600) ∧
    json r = Returns body ∧
    getitem body (KStr "choices") = Returns choices ∧
    getitem choices (KIdx 0) = Returns choice ∧
    getitem choice (KStr "message") = Returns message ∧
    getitem message (KStr "content") = Returns v.
Proof.
  unfold ocr_image. cbn [snd]. split.
  - destruct (net page_num (ocr_request image_base64)) as [r|e] eqn:Hnet;
      cbn [bind]; [|by destruct (exn_class_of e)].
    unfold raise_for_status.
    destruct (decide (400 ≤ status_code r < 500)); [done |].
    destruct (decide (500 ≤ status_code r < 600)); [done |]. cbn [bind].
    destruct (json r) as [body|e] eqn:Hjson; cbn [bind];
      [|by destruct (exn_class_of e)].
    destruct (getitem body (KStr "choices")) as [choices|e] eqn:H1; cbn [bind];
      [|by destruct (exn_class_of e)].
    destruct (getitem choices (KIdx 0)) as [choice|e] eqn:H2; cbn [bind];
      [|by destruct (exn_class_of e)].
    destruct (getitem choice (KStr "message")) as [message|e] eqn:H3; cbn [bind];
      [|by destruct (exn_class_of e)].
    destruct (getitem message (KStr "content")) as [text|e] eqn:H4;
      [|by destruct (exn_class_of e)].
    intros [= <-]. exists r, body, choices, choice, message.
    repeat split; try done. lia.
  - intros (r & body & choices & choice & message & -> & Hstatus & Hjson
            & H1 & H2 & H3 & H4).
    cbn [bind]. unfold raise_for_status. rewrite !decide_False by lia.
    cbn [bind]. rewrite Hjson. cbn [bind]. rewrite H1. cbn [bind].
    rewrite H2. cbn [bind]. rewrite H3. cbn [bind]. by rewrite H4.
Qed.




(** ** Stripping the separators *)

Lemma succ_mod_2 i : S i mod 2 = 1 - i mod 2.
Proof.
  pose proof (Nat.div_mod_eq i 2). pose proof (Nat.div_mod_eq (S i) 2).
  pose proof (Nat.mod_upper_bound i 2). pose proof (Nat.mod_upper_bound (S i) 2).
  lia.
Qed.

Lemma clean_content_of_lookup i all_content j :
  clean_content_of i all_content !! j = all_content !! (2 * j + (1 - i mod 2)).
Proof.
  revert i j. induction all_content as [|item rest IH]; intros i j; [done |].
  cbn [clean_content_of]. pose proof (succ_mod_2 i) as Hsucc.
  pose proof (Nat.mod_upper_bound i 2 ltac:(lia)) as Hlt.
  destruct (decide (i mod 2 = 1)) as [Hodd|Heven].
  - destruct j as [|j].
    + by rewrite Hodd.
    + cbn [lookup list_lookup]. rewrite IH, Hsucc, Hodd.
      by replace (2 * S j + (1 - 1)) with (S (2 * j + (1 - 0))) by lia.
  - rewrite IH, Hsucc. replace (i mod 2) with 0 by lia.
    by replace (2 * j + (1 - 0)) with (S (2 * j + (1 - (1 - 0)))) by lia.
Qed.

(** X11. The loop that strips the separators keeps the items at the odd
    positions of [all_content], in their order, whatever the list is:
    item [j] of [clean_content] is item [2 * j + 1] of [all_content], and
    half of the items are kept. *)
Theorem clean_content_odd_positions all_content :
  (∀ j, clean_content_of 0 all_content !! j = all_content !! (2 * j + 1)) ∧
  length (clean_content_of 0 all_content) = length all_content / 2.
Proof.
  split.
  - intros j. by rewrite clean_content_of_lookup.
  - assert (∀ i l, length (clean_content_of i l) = (length l + i mod 2) / 2) as H.
    { intros i l. revert i. induction l as [|item rest IH]; intros i.
      - cbn [clean_content_of length].
        pose proof (Nat.mod_upper_bound i 2 ltac:(lia)).
        symmetry. apply Nat.div_small. lia.
      - cbn [clean_content_of length]. pose proof (succ_mod_2 i) as Hsucc.
        pose proof (Nat.mod_upper_bound i 2 ltac:(lia)) as Hlt.
        destruct (decide (i mod 2 = 1)) as [Hodd|Heven]; cbn [length];
          rewrite IH, Hsucc.
        + rewrite Hodd. replace (1 - 1) with 0 by lia.
          replace (S (length rest) + 1) with (length rest + 0 + 1 * 2) by lia.
          rewrite Nat.div_add by lia. lia.
        + replace (i mod 2) with 0 by lia. f_equal. lia. }
    rewrite H. by rewrite Nat.add_0_r.
Qed.

(** ** Every execution of the flow *)

Lemma flow_stage_inv_step total_pages output_md_path fs0 s s' :
  step total_pages output_md_path s s' →
  flow_stage_inv total_pages output_md_path fs0 s →
  flow_stage_inv total_pages output_md_path fs0 s'.
Proof.
  intros Hstep Hinv. destruct Hstep; cbn [flow_stage_inv] in *.
  - done.
  - by subst.
  - left. by subst.
  - right. left. subst. by eexists.
  - destruct Hinv as (? & ? & ->). by eexists _, _.
  - destruct Hinv as (? & ? & ->). right. right. by eexists _, _.
  - destruct Hinv as (all_content & combined_text & ? & ? & ? & ->).
    by eexists _, _, _.
Qed.

Lemma flow_stage_inv_reachable net pdf output_md_path fs0 s :
  rtc (step (length pdf) output_md_path) (flow_start net pdf fs0) s →
  flow_stage_inv (length pdf) output_md_path fs0 s.
Proof.
  revert s. apply rtc_ind_r; [done |].
  intros s s' _ Hstep IH. by eapply flow_stage_inv_step.
Qed.

(** X12. Every execution of the main flow that has come to its end, in
    whatever order the futures were handed back, ends as [pdf_to_md]
    does: with the same entries, the same files and the same exception,
    if any. *)
Theorem finished_flow_is_pdf_to_md as_completed net pdf output_md_path fs0 s :
  (∀ futures, as_completed futures ≡ₚ futures) →
  rtc (step (length pdf) output_md_path) (flow_start net pdf fs0) s →
  let r := pdf_to_md as_completed net pdf output_md_path fs0 in
  (past_barrier s = true →
     results (flow_collected s) = results (run_collected r)) ∧
  (∀ st fs, s = Finished st fs → run_raised r = None ∧ fs = run_fs r) ∧
  (∀ st e fs, s = Aborted st e fs → run_raised r = Some e ∧ fs = run_fs r).
Proof.
  intros Hall Hsteps r.
  pose proof (flow_stage_inv_reachable _ _ _ _ _ Hsteps) as Hstage.
  destruct (flow_inv_reachable _ _ _ _ _ Hsteps)
    as ((handed_back & Hperm & Hcollected) & _ & Hpending).
  assert (past_barrier s = true →
          results (flow_collected s) =
            results (dispatch as_completed net (render_pages 0 pdf))) as Hres.
  { intros Hpast. rewrite Hpending in Hperm by done. rewrite Hcollected.
    apply map_eq. intros page_num.
    rewrite (collected_lookup net pdf) by done. by rewrite dispatch_lookup. }
  subst r. split; [|split].
  - intros Hpast. rewrite run_collected_dispatch. by apply Hres.
  - intros st fs ->. cbn [flow_stage_inv flow_collected] in *.
    destruct Hstage as (all_content & combined_text & clean_text
                        & Hcontent & Hcombined & Hclean & ->).
    unfold pdf_to_md. rewrite <- Hres by done.
    by rewrite Hcontent, Hcombined, Hclean.
  - intros st e fs ->. cbn [flow_stage_inv flow_collected] in *.
    unfold pdf_to_md. rewrite <- Hres by done.
    destruct Hstage as [[Hcontent ->]|[(all_content & Hcontent & Hjoin & ->)
      |(all_content & combined_text & Hcontent & Hcombined & Hclean & ->)]].
    + by rewrite Hcontent.
    + by rewrite Hcontent, Hjoin.
    + by rewrite Hcontent, Hcombined, Hclean.
Qed.

Lemma finished_flow_is_pdf_to_md_witness :
  let s := flow_of_run (pdf_to_md reverse sample_net sample_pdf "out/scan.md" ∅) in
  (∀ futures : list (future * nat), id futures ≡ₚ futures) ∧
  rtc (step (length sample_pdf) "out/scan.md") (flow_start sample_net sample_pdf ∅) s ∧
  let r := pdf_to_md id sample_net sample_pdf "out/scan.md" ∅ in
  (past_barrier s = true →
     results (flow_collected s) = results (run_collected r)) ∧
  (∀ st fs, s = Finished st fs → run_raised r = None ∧ fs = run_fs r) ∧
  (∀ st e fs, s = Aborted st e fs → run_raised r = Some e ∧ fs = run_fs r).
Proof.
  intros s.
  assert (rtc (step (length sample_pdf) "out/scan.md")
            (flow_start sample_net sample_pdf ∅) s) as Hsteps.
  { apply pdf_to_md_flow, reverse_Permutation. }
  split; [done |]. split; [exact Hsteps |].
  exact (finished_flow_is_pdf_to_md id sample_net sample_pdf "out/scan.md" ∅ s
           (λ futures, Permutation_refl futures) Hsteps).
Defined.

(** ** Sessions *)

